(** * electro-modelling: the DCGAN discriminator and the techno data loader

    A shallow embedding of

    - [src/electro_modelling/models/discriminator.py]
      ([Discriminator.__init__], [Discriminator.make_disc_block],
      [Discriminator.forward]) and
    - [src/electro_modelling/datasets/techno_dataloader.py]
      ([techno_data_loader]).

    Both files are compositions of calls into torch / torchvision.  The
    library is modelled to the extent the two files observe it: tensors as
    a shape with row-major contents, the shape rules and the guards of
    [Conv2d], [BatchNorm2d], [LeakyReLU], [Tensor.view], [len],
    [transforms.Normalize], [DataLoader], its batch sampler and its
    collation.  The numeric kernels of the parametrised layers
    (convolution and batch normalisation, whose results depend on weights
    and on square roots) stay abstract: they are the fields of a
    [Backend].  Tensor elements are exact rationals; floating-point
    rounding is outside this model. *)

From Stdlib Require Import QArith ZArith Lia String.
From stdpp Require Import base option list.

Local Open Scope nat_scope.
#[local] Set Warnings "-register-all".

(** ** torch: tensors *)

(** A contiguous tensor: its sizes and its elements in row-major order. *)
Record Tensor := mkTensor { shape : list nat; data : list Q }.

Definition prod_list (l : list nat) : nat := foldr Nat.mul 1 l.

(** [Tensor.numel()], [Tensor.dim()]. *)
Definition numel (t : Tensor) : nat := prod_list (shape t).
Definition dim (t : Tensor) : nat := length (shape t).

(** [len(t)]: the size of the first dimension; a 0-d tensor has no length
    (TypeError: len() of a 0-d tensor). *)
Definition len (t : Tensor) : option nat := head (shape t).

(** The sizes requested from [view] are Python ints; [-1] asks for the
    size to be inferred.  This follows ATen's [infer_size]:
    - a size below -1 is invalid, and only one dimension can be inferred;
    - without -1 the product of the sizes must be the number of elements;
    - with one -1 the product [known] of the other sizes must divide the
      number of elements, and [known = 0] is refused ("the unspecified
      dimension size -1 can be any value and is ambiguous" for an empty
      tensor, "shape is invalid for input of size n" otherwise). *)
Definition infer_size (sizes : list Z) (n : nat) : option (list nat) :=
  if existsb (fun d => d <? -1)%Z sizes then None
  else
    let known := prod_list (Z.to_nat <$> filter (fun d => d ≠ (-1)%Z) sizes) in
    match length (filter (fun d => d = (-1)%Z) sizes) with
    | 0 => if known =? n then Some (Z.to_nat <$> sizes) else None
    | 1 => if (0 <? known) && (n mod known =? 0)
           then Some ((fun d => if (d =? -1)%Z then n / known else Z.to_nat d) <$> sizes)
           else None
    | _ => None
    end.

(** [t.view(sizes)]: the same elements under another shape (the result
    shares the storage of [t]). *)
Definition view (t : Tensor) (sizes : list Z) : option Tensor :=
  s ← infer_size sizes (numel t);
  Some (mkTensor s (data t)).

(** ** torch.nn: layers and containers *)

(** The hyper-parameters of [nn.Conv2d]. *)
Record Conv2dCfg := mkConv2d {
  in_channels : nat;
  out_channels : nat;
  kernel_size : nat;
  stride : nat;
  padding : nat;
  dilation : nat }.

Inductive Layer :=
| Conv2d (cfg : Conv2dCfg)
| BatchNorm2d (num_features : nat)
| LeakyReLU (negative_slope : Q) (inplace : bool).

(** An [nn.Module] tree: a layer, or an [nn.Sequential] of sub-modules. *)
Inductive NNModule :=
| Leaf (l : Layer)
| Sequential (children : list NNModule).

Coercion Leaf : Layer >-> NNModule.

(** [nn.Conv2d(in_channels, out_channels, kernel_size, stride=stride)]:
    padding and dilation keep their defaults 0 and 1. *)
Definition nn_Conv2d (in_channels out_channels kernel_size stride : nat) : Layer :=
  Conv2d (mkConv2d in_channels out_channels kernel_size stride 0 1).

(** The output size of a convolution along one spatial dimension,
    [floor((h + 2*padding - dilation*(kernel_size-1) - 1) / stride) + 1];
    the padded input must cover the (dilated) kernel ("Kernel size can't
    be greater than actual input size") and the stride must be positive. *)
Definition conv_out (c : Conv2dCfg) (h : nat) : option nat :=
  let span := dilation c * (kernel_size c - 1) + 1 in
  if (1 <=? stride c) && (1 <=? kernel_size c) && (span <=? h + 2 * padding c)
  then Some ((h + 2 * padding c - span) / stride c + 1)
  else None.

(** Shapes through [Conv2d]: a batch (N, C, H, W) or a single image
    (C, H, W) whose channel count is [in_channels]. *)
Definition conv2d_shape (c : Conv2dCfg) (s : list nat) : option (list nat) :=
  match s with
  | [n; ch; h; w] =>
      if ch =? in_channels c
      then h' ← conv_out c h; w' ← conv_out c w; Some [n; out_channels c; h'; w']
      else None
  | [ch; h; w] =>
      if ch =? in_channels c
      then h' ← conv_out c h; w' ← conv_out c w; Some [out_channels c; h'; w']
      else None
  | _ => None
  end.

(** Shapes through [BatchNorm2d]: only 4-d inputs with [num_features]
    channels ("expected 4D input"); in training mode a channel needs more
    than one value ("Expected more than 1 value per channel when
    training"). *)
Definition batchnorm2d_shape (num_features : nat) (training : bool)
    (s : list nat) : option (list nat) :=
  match s with
  | [n; ch; h; w] =>
      if (ch =? num_features) && negb (training && (n * h * w =? 1))
      then Some s else None
  | _ => None
  end.

(** LeakyReLU on one element. *)
Definition leaky_relu (negative_slope x : Q) : Q :=
  if Qle_bool 0 x then x else (negative_slope * x)%Q.

(** The numeric kernels of the layers that carry parameters.  A layer is
    identified by its position in the module tree (the indices of the
    [Sequential] children leading to it, as in the names of
    [state_dict]), so two layers with the same hyper-parameters keep
    their own weights. *)
Record Backend := mkBackend {
  conv2d_data : list nat -> Conv2dCfg -> Tensor -> list Q;
  batch_norm_data : list nat -> nat -> bool -> Tensor -> list Q }.

Section Forward.

Context (K : Backend) (training : bool).

(** Calling one layer. *)
Definition apply_layer (path : list nat) (l : Layer) (x : Tensor) : option Tensor :=
  match l with
  | Conv2d c =>
      s ← conv2d_shape c (shape x);
      Some (mkTensor s (conv2d_data K path c x))
  | BatchNorm2d nf =>
      s ← batchnorm2d_shape nf training (shape x);
      Some (mkTensor s (batch_norm_data K path nf training x))
  | LeakyReLU slope _ =>
      Some (mkTensor (shape x) (leaky_relu slope <$> data x))
  end.

(** Calling a module: [nn.Sequential] feeds each child with the output
    of the one before it. *)
Fixpoint apply_module (path : list nat) (m : NNModule) (x : Tensor) : option Tensor :=
  match m with
  | Leaf l => apply_layer path l x
  | Sequential children =>
      (fix run (i : nat) (ms : list NNModule) (x : Tensor) : option Tensor :=
         match ms with
         | [] => Some x
         | m' :: ms' =>
             match apply_module (path ++ [i]) m' x with
             | Some y => run (S i) ms' y
             | None => None
             end
         end) 0 children x
  end.

(** The loop of [nn.Sequential.forward], from child number [i] on. *)
Fixpoint run_children (path : list nat) (i : nat) (ms : list NNModule)
    (x : Tensor) : option Tensor :=
  match ms with
  | [] => Some x
  | m' :: ms' =>
      match apply_module (path ++ [i]) m' x with
      | Some y => run_children path (S i) ms' y
      | None => None
      end
  end.

End Forward.

(** ** models/discriminator.py *)

(** [Discriminator.make_disc_block]. *)
Definition make_disc_block (input_channels output_channels : nat)
    (kernel_size stride : nat) : NNModule :=
  Sequential [
    Leaf (nn_Conv2d input_channels output_channels kernel_size stride);
    Leaf (BatchNorm2d output_channels);
    Leaf (LeakyReLU 0.2 true)
  ].

(** The class: its one attribute of its own is [model]. *)
Record Discriminator := mkDiscriminator { model : NNModule }.

(** [Discriminator.__init__(img_chan, hidden_dim)]. *)
Definition Discriminator_init (img_chan hidden_dim : nat) : Discriminator :=
  {| model := Sequential [
       make_disc_block img_chan hidden_dim 4 2;
       make_disc_block hidden_dim (hidden_dim * 2) 4 2;
       Leaf (nn_Conv2d (hidden_dim * 2) 1 4 2)
     ] |}.

(** A call [Discriminator(...)]: an argument that is left out takes its
    default, [img_chan=1] and [hidden_dim=16]. *)
Definition Discriminator_new (img_chan hidden_dim : option nat) : Discriminator :=
  Discriminator_init (default 1 img_chan) (default 16 hidden_dim).

(** [Discriminator()]. *)
Definition Discriminator_default : Discriminator := Discriminator_new None None.

(** [Discriminator.forward]. *)
Definition forward (K : Backend) (training : bool) (self : Discriminator)
    (x : Tensor) : option Tensor :=
  predictions ← apply_module K training [] (model self) x;
  n ← len predictions;
  view predictions [Z.of_nat n; (-1)%Z].

(** ** Shapes through a module tree *)

(** The shape a layer gives to its output: it depends neither on the
    contents of the input nor on the backend. *)
Definition layer_shape (training : bool) (l : Layer) (s : list nat) : option (list nat) :=
  match l with
  | Conv2d c => conv2d_shape c s
  | BatchNorm2d nf => batchnorm2d_shape nf training s
  | LeakyReLU _ _ => Some s
  end.

Fixpoint module_shape (training : bool) (m : NNModule) (s : list nat) : option (list nat) :=
  match m with
  | Leaf l => layer_shape training l s
  | Sequential children =>
      (fix run (ms : list NNModule) (s : list nat) : option (list nat) :=
         match ms with
         | [] => Some s
         | m' :: ms' =>
             match module_shape training m' s with
             | Some s' => run ms' s'
             | None => None
             end
         end) children s
  end.

Fixpoint children_shape (training : bool) (ms : list NNModule) (s : list nat)
    : option (list nat) :=
  match ms with
  | [] => Some s
  | m' :: ms' =>
      match module_shape training m' s with
      | Some s' => children_shape training ms' s'
      | None => None
      end
  end.

(** The layers of a module tree in calling order, each with its position. *)
Fixpoint leaves (path : list nat) (m : NNModule) : list (list nat * Layer) :=
  match m with
  | Leaf l => [(path, l)]
  | Sequential children =>
      (fix go (i : nat) (ms : list NNModule) : list (list nat * Layer) :=
         match ms with
         | [] => []
         | m' :: ms' => leaves (path ++ [i]) m' ++ go (S i) ms'
         end) 0 children
  end.

Fixpoint children_leaves (path : list nat) (i : nat) (ms : list NNModule)
    : list (list nat * Layer) :=
  match ms with
  | [] => []
  | m' :: ms' => leaves (path ++ [i]) m' ++ children_leaves path (S i) ms'
  end.

(** The convolutions of a module tree, in calling order. *)
Definition convs (m : NNModule) : list Conv2dCfg :=
  omap (fun pl => match snd pl with Conv2d c => Some c | _ => None end) (leaves [] m).

(** The channel counts a convolution goes from and to. *)
Definition channels (c : Conv2dCfg) : nat * nat := (in_channels c, out_channels c).

(** Calling a list of layers one after the other. *)
Fixpoint run_layers (K : Backend) (training : bool) (ls : list (list nat * Layer))
    (x : Tensor) : option Tensor :=
  match ls with
  | [] => Some x
  | (path, l) :: ls' =>
      match apply_layer K training path l x with
      | Some y => run_layers K training ls' y
      | None => None
      end
  end.

(** Three stride-2, kernel-4, unpadded convolutions in a row. *)
Definition out1 (h : nat) : nat := (h - 4) / 2 + 1.
Definition out3 (h : nat) : nat := out1 (out1 (out1 h)).

(** ** torchvision.transforms *)

Inductive Transform :=
| Normalize (mean std : list Q)
| Compose (transforms : list Transform).

(** A sequence of [k] per-channel values, viewed as (k, 1, 1), broadcasts
    in place against [c] channels when [k = c] or [k = 1]. *)
Definition broadcastable (k c : nat) : bool := (k =? c) || (k =? 1).

Definition channel_value (l : list Q) (ch : nat) : Q :=
  default 0%Q (if length l =? 1 then l !! 0 else l !! ch).

(** The channel of the element at flat position [p] of a tensor
    (..., C, H, W) with [c] channels of [h] by [w] elements. *)
Definition channel_at (c h w p : nat) : nat := (p / (h * w)) mod c.

(** [transforms.Normalize(mean, std)] on a tensor image (..., C, H, W):
    [output[ch] = (input[ch] - mean[ch]) / std[ch]].  The tensor needs at
    least three dimensions and no [std] may be zero. *)
Definition normalize (mean std : list Q) (t : Tensor) : option Tensor :=
  match reverse (shape t) with
  | w :: h :: c :: _ =>
      if existsb (Qeq_bool 0) std then None
      else if broadcastable (length mean) c && broadcastable (length std) c
      then Some (mkTensor (shape t)
                   (imap (fun p x =>
                            let ch := channel_at c h w p in
                            ((x - channel_value mean ch) / channel_value std ch)%Q)
                         (data t)))
      else None
  | _ => None
  end.

(** Calling a transform; [Compose] calls its transforms in order. *)
Fixpoint apply_transform (t : Transform) (x : Tensor) : option Tensor :=
  match t with
  | Normalize mean std => normalize mean std x
  | Compose ts =>
      (fix run (ts : list Transform) (x : Tensor) : option Tensor :=
         match ts with
         | [] => Some x
         | t' :: ts' =>
             match apply_transform t' x with
             | Some y => run ts' y
             | None => None
             end
         end) ts x
  end.

(** ** datasets/techno_dataset.py *)

(** Modelled from the spec: the class [TechnoDatasetSpectrogram] is not
    among the sources; the data loader "wraps a pickle-based tensor cache
    with a normalization transform", so a dataset holds the cached
    tensors and the transform it was given. *)
Record TechnoDatasetSpectrogram := mkTechnoDataset {
  dat : list Tensor;
  transform : Transform }.

(** Modelled from the spec: [__len__] of the absent class, the number of
    cached tensors. *)
Definition dataset_len (ds : TechnoDatasetSpectrogram) : nat := length (dat ds).

(** Modelled from the spec: [__getitem__] of the absent class, the cached
    tensor at [idx] passed through the transform (IndexError out of
    range). *)
Definition dataset_getitem (ds : TechnoDatasetSpectrogram) (idx : nat) : option Tensor :=
  x ← dat ds !! idx;
  apply_transform (transform ds) x.

(** ** torch.utils.data *)

Record DataLoader := mkDataLoader {
  dataset : TechnoDatasetSpectrogram;
  batch_size : nat;
  shuffle : bool;
  drop_last : bool }.

(** [DataLoader(dataset, batch_size=batch_size, shuffle=shuffle)]:
    [drop_last] keeps its default [False].  With [shuffle] the loader
    builds a random sampler, which refuses an empty dataset
    ("num_samples should be a positive integer value"); its batch
    sampler refuses a batch size that is not positive ("batch_size should
    be a positive integer value"). *)
Definition DataLoader_init (ds : TechnoDatasetSpectrogram) (batch_size : nat)
    (shuffle : bool) : option DataLoader :=
  if shuffle && (dataset_len ds =? 0) then None
  else if batch_size =? 0 then None
  else Some (mkDataLoader ds batch_size shuffle false).

(** The order in which an epoch visits the indices: with [shuffle] it is
    the permutation [randperm] that the random sampler draws for this
    epoch, otherwise the order of the dataset. *)
Definition sampler_order (ld : DataLoader) (randperm : list nat) : list nat :=
  if shuffle ld then randperm else seq 0 (dataset_len (dataset ld)).

(** [BatchSampler.__iter__]: indices are appended to [batch]; a full
    batch is yielded and a new one started; what is left at the end is
    yielded unless [drop_last]. *)
Fixpoint batch_sampler (batch_size : nat) (drop_last : bool) (batch : list nat)
    (idxs : list nat) : list (list nat) :=
  match idxs with
  | [] => if (0 <? length batch) && negb drop_last then [batch] else []
  | idx :: rest =>
      let batch' := batch ++ [idx] in
      if length batch' =? batch_size
      then batch' :: batch_sampler batch_size drop_last [] rest
      else batch_sampler batch_size drop_last batch' rest
  end.

(** [torch.stack(samples, 0)], the collation of a batch: the samples must
    have one shape, and there must be one at least. *)
Definition stack (ts : list Tensor) : option Tensor :=
  match ts with
  | [] => None
  | t :: _ =>
      if forallb (fun u => bool_decide (shape u = shape t)) ts
      then Some (mkTensor (length ts :: shape t) (concat (data <$> ts)))
      else None
  end.

(** Fetching one batch: the samples at its indices, collated. *)
Definition fetch (ld : DataLoader) (batch : list nat) : option Tensor :=
  samples ← mapM (dataset_getitem (dataset ld)) batch;
  stack samples.

(** The batches of indices of one epoch. *)
Definition loader_batches (ld : DataLoader) (randperm : list nat) : list (list nat) :=
  batch_sampler (batch_size ld) (drop_last ld) [] (sampler_order ld randperm).

(** One epoch of [for batch in loader]. *)
Definition iterate (ld : DataLoader) (randperm : list nat) : option (list Tensor) :=
  mapM (fetch ld) (loader_batches ld randperm).

(** ** datasets/techno_dataloader.py *)

(** The transform built by [techno_data_loader]. *)
Definition techno_transform : Transform :=
  Compose [Normalize [(-3.76)%Q; 0%Q] [10.05%Q; 1%Q]].

Section TechnoDataLoader.

(** [electro_modelling.helpers.utils.load_pickle] is not among the
    sources: it is a parameter, giving the tensors pickled in a file,
    or nothing when the file cannot be read. *)
Context (load_pickle : string -> option (list Tensor)).

(** [techno_data_loader(batch_size, data_dir)]. *)
Definition techno_data_loader (batch_size : nat) (data_dir : string)
    : option DataLoader :=
  let transform := techno_transform in
  tensors ← load_pickle data_dir;
  let train_set := mkTechnoDataset tensors transform in
  train_loader ← DataLoader_init train_set batch_size true;
  Some train_loader.

End TechnoDataLoader.

(** ** The two files as plain compositions *)

(** The forward pass of a discriminator as a composition of library
    calls: convolution, batch normalisation and LeakyReLU twice, a last
    convolution, and the reshape. *)
Definition forward_composition (K : Backend) (training : bool)
    (img_chan hidden_dim : nat) (x : Tensor) : option Tensor :=
  x1 ← apply_layer K training [0; 0] (nn_Conv2d img_chan hidden_dim 4 2) x;
  x2 ← apply_layer K training [0; 1] (BatchNorm2d hidden_dim) x1;
  x3 ← apply_layer K training [0; 2] (LeakyReLU 0.2 true) x2;
  x4 ← apply_layer K training [1; 0] (nn_Conv2d hidden_dim (hidden_dim * 2) 4 2) x3;
  x5 ← apply_layer K training [1; 1] (BatchNorm2d (hidden_dim * 2)) x4;
  x6 ← apply_layer K training [1; 2] (LeakyReLU 0.2 true) x5;
  x7 ← apply_layer K training [2] (nn_Conv2d (hidden_dim * 2) 1 4 2) x6;
  n ← len x7;
  view x7 [Z.of_nat n; (-1)%Z].

(** One epoch over the loader that [techno_data_loader] returns. *)
Definition techno_epoch (load_pickle : string -> option (list Tensor))
    (batch_size : nat) (data_dir : string) (randperm : list nat)
    : option (list Tensor) :=
  ld ← techno_data_loader load_pickle batch_size data_dir;
  iterate ld randperm.

(** The same epoch as a composition of library calls: pickle-load,
    normalise every sample, wrap the normalised samples in a dataset
    (that has nothing left to apply), batch them in shuffled order. *)
Definition loader_composition (load_pickle : string -> option (list Tensor))
    (batch_size : nat) (data_dir : string) (randperm : list nat)
    : option (list Tensor) :=
  tensors ← load_pickle data_dir;
  normalized ← mapM (normalize [(-3.76)%Q; 0%Q] [10.05%Q; 1%Q]) tensors;
  ld ← DataLoader_init (mkTechnoDataset normalized (Compose [])) batch_size true;
  iterate ld randperm.

(** The element at channel [c], row [i], column [j] of a tensor image
    (C, H, W). *)
Definition at3 (t : Tensor) (c i j : nat) : option Q :=
  match shape t with
  | [cs; h; w] =>
      if (c <? cs) && (i <? h) && (j <? w)
      then data t !! ((c * h + i) * w + j)
      else None
  | _ => None
  end.

(** ** Concrete instances *)

(** A backend for running the definitions: a convolution that answers
    zeros of the size of its output, a normalisation that leaves the
    contents as they are. *)
Definition zeros_backend : Backend :=
  mkBackend
    (fun _ c x => repeat 0%Q (prod_list (default [] (conv2d_shape c (shape x)))))
    (fun _ _ _ x => data x).

(** A batch of [n] one-channel [h] by [w] images, all zero. *)
Definition zero_images (n h w : nat) : Tensor :=
  mkTensor [n; 1; h; w] (repeat 0%Q (n * (h * w))).

(** Three two-channel images of one row and two columns, and a file
    system with one pickle file holding them. *)
Definition sample_a : Tensor := mkTensor [2; 1; 2] [1%Q; 2%Q; 3%Q; 4%Q].
Definition sample_b : Tensor := mkTensor [2; 1; 2] [0%Q; (-3.76)%Q; 0.5%Q; (-1)%Q].
Definition sample_c : Tensor := mkTensor [2; 1; 2] [6.29%Q; 0%Q; 0%Q; 7%Q].

Definition pickle_jar (path : string) : option (list Tensor) :=
  if String.eqb path "techno.pkl" then Some [sample_a; sample_b; sample_c] else None.

Definition jar_loader : DataLoader :=
  mkDataLoader (mkTechnoDataset [sample_a; sample_b; sample_c] techno_transform)
    2 true false.




(** * Properties *)

(** ** Module trees *)

(** Induction on a module tree, with the hypothesis for every child of a
    [Sequential]. *)
Lemma NNModule_nested_ind (P : NNModule -> Prop) :
  (forall l, P (Leaf l)) ->
  (forall ms, Forall P ms -> P (Sequential ms)) ->
  forall m, P m.
Proof.
  intros Hleaf Hseq.
  fix IH 1. intros [l | ms].
  - apply Hleaf.
  - apply Hseq. induction ms as [| m ms IHms]; constructor; [apply IH | exact IHms].
Qed.

Lemma apply_module_Sequential K training path ms x :
  apply_module K training path (Sequential ms) x = run_children K training path 0 ms x.
Proof.
  simpl. generalize 0. revert x.
  induction ms as [| m ms IHms]; intros x i; simpl; [reflexivity |].
  destruct (apply_module K training (path ++ [i]) m x); [apply IHms | reflexivity].
Qed.

Lemma module_shape_Sequential training ms s :
  module_shape training (Sequential ms) s = children_shape training ms s.
Proof.
  simpl. revert s.
  induction ms as [| m ms IHms]; intros s; simpl; [reflexivity |].
  destruct (module_shape training m s); [apply IHms | reflexivity].
Qed.

Lemma leaves_Sequential path ms :
  leaves path (Sequential ms) = children_leaves path 0 ms.
Proof.
  simpl. generalize 0.
  induction ms as [| m ms IHms]; intros i; simpl; [reflexivity |].
  f_equal. apply IHms.
Qed.

Lemma apply_layer_shape K training path l x :
  shape <$> apply_layer K training path l x = layer_shape training l (shape x).
Proof.
  destruct l as [c | nf | slope inplace]; simpl.
  - destruct (conv2d_shape c (shape x)); reflexivity.
  - destruct (batchnorm2d_shape nf training (shape x)); reflexivity.
  - reflexivity.
Qed.

(** The shape of a module's output is a function of the shape of its
    input: neither the contents nor the backend matter. *)
Lemma apply_module_shape K training m :
  forall path x,
    shape <$> apply_module K training path m x = module_shape training m (shape x).
Proof.
  induction m as [l | ms IH] using NNModule_nested_ind; intros path x.
  - apply apply_layer_shape.
  - rewrite apply_module_Sequential, module_shape_Sequential.
    generalize 0. revert x.
    induction IH as [| m ms Hm _ IHms]; intros x i; simpl; [reflexivity |].
    specialize (Hm (path ++ [i]) x).
    destruct (apply_module K training (path ++ [i]) m x) as [y |]; simpl in Hm;
      rewrite <- Hm; [apply IHms | reflexivity].
Qed.

Lemma run_layers_app K training ls1 ls2 x :
  run_layers K training (ls1 ++ ls2) x
  = y ← run_layers K training ls1 x; run_layers K training ls2 y.
Proof.
  revert x. induction ls1 as [| [path l] ls1 IHls]; intros x; simpl; [reflexivity |].
  destruct (apply_layer K training path l x); [apply IHls | reflexivity].
Qed.

(** Calling a module tree is calling its layers in order: [Sequential]
    adds nothing of its own. *)
Lemma apply_module_leaves K training m :
  forall path x,
    apply_module K training path m x = run_layers K training (leaves path m) x.
Proof.
  induction m as [l | ms IH] using NNModule_nested_ind; intros path x.
  - simpl. destruct (apply_layer K training path l x); reflexivity.
  - rewrite apply_module_Sequential, leaves_Sequential.
    generalize 0. revert x.
    induction IH as [| m ms Hm _ IHms]; intros x i; simpl; [reflexivity |].
    rewrite run_layers_app, <- Hm.
    destruct (apply_module K training (path ++ [i]) m x); [apply IHms | reflexivity].
Qed.

(** ** Shapes through the discriminator *)

Lemma conv_out_4_2 i o h :
  conv_out (mkConv2d i o 4 2 0 1) h = if 4 <=? h then Some (out1 h) else None.
Proof.
  unfold conv_out, out1; simpl.
  replace (h + 0) with h by lia.
  destruct (Nat.leb_spec 4 h); reflexivity.
Qed.

Lemma out1_le h k : 2 <= k -> (k <= out1 h <-> 2 * k + 2 <= h).
Proof.
  unfold out1. intros Hk.
  pose proof (Nat.div_mod_eq (h - 4) 2) as Hdiv.
  pose proof (Nat.mod_upper_bound (h - 4) 2) as Hmod.
  lia.
Qed.

Lemma out1_pos h : 1 <= out1 h.
Proof. unfold out1. lia. Qed.

Lemma block_shape training i o s :
  module_shape training (make_disc_block i o 4 2) s =
  match s with
  | [n; ch; h; w] =>
      if (ch =? i) && (4 <=? h) && (4 <=? w)
         && negb (training && (n * out1 h * out1 w =? 1))
      then Some [n; o; out1 h; out1 w] else None
  | _ => None
  end.
Proof.
  unfold make_disc_block, nn_Conv2d. rewrite module_shape_Sequential.
  destruct s as [| n [| ch [| h [| w [| ? ?]]]]]; try reflexivity;
    cbn [children_shape module_shape layer_shape conv2d_shape batchnorm2d_shape
         in_channels out_channels mbind option_bind];
    rewrite ?conv_out_4_2.
  - (* a single image passes the convolution, not the normalisation *)
    destruct (n =? i), (4 <=? ch), (4 <=? h); reflexivity.
  - destruct (ch =? i), (4 <=? h), (4 <=? w); try reflexivity.
    cbn [children_shape module_shape layer_shape conv2d_shape batchnorm2d_shape
         mbind option_bind andb].
    rewrite Nat.eqb_refl.
    destruct (training && (n * out1 h * out1 w =? 1)); reflexivity.
Qed.

Lemma mul3_ne_1 n a b : 2 <= a -> n * a * b <> 1.
Proof. intros Ha. destruct n as [| n]; [lia |]. destruct b as [| b]; nia. Qed.

(** Case analysis on the guards met while a shape goes through the
    layers. *)
Ltac split_guards :=
  repeat (
    cbn [children_shape module_shape layer_shape conv2d_shape batchnorm2d_shape
         in_channels out_channels mbind option_bind andb negb];
    rewrite ?conv_out_4_2, ?block_shape;
    match goal with
    | |- context [?a <=? ?b] => destruct (Nat.leb_spec a b)
    | |- context [?a =? ?b] => destruct (Nat.eqb_spec a b)
    | |- context [?t && _] => is_var t; destruct t
    | |- context [if ?t then _ else _] => is_var t; destruct t
    end).

Ltac out1_facts h :=
  pose proof (out1_le h 4); pose proof (out1_le h 10);
  pose proof (out1_le (out1 h) 4); pose proof (out1_pos h);
  pose proof (out1_pos (out1 h)).

(** The discriminator accepts exactly the batches of [img_chan]-channel
    images of height and width at least 22. *)
Lemma discriminator_shape training img_chan hidden_dim s :
  module_shape training (model (Discriminator_init img_chan hidden_dim)) s =
  match s with
  | [n; ch; h; w] =>
      if (ch =? img_chan) && (22 <=? h) && (22 <=? w)
      then Some [n; 1; out3 h; out3 w] else None
  | _ => None
  end.
Proof.
  unfold Discriminator_init, nn_Conv2d; cbn [model].
  rewrite module_shape_Sequential. cbn [children_shape]. rewrite block_shape.
  destruct s as [| n [| ch [| h [| w [| ? ?]]]]]; try reflexivity.
  out1_facts h; out1_facts w.
  pose proof (mul3_ne_1 n (out1 h) (out1 w)).
  pose proof (mul3_ne_1 n (out1 (out1 h)) (out1 (out1 w))).
  split_guards;
    try reflexivity; try (exfalso; lia).
Qed.

(** ** The forward pass *)

Lemma prod_list_cons n l : prod_list (n :: l) = n * prod_list l.
Proof. reflexivity. Qed.

(** [view(n, -1)] on a tensor whose first size is [n > 0]: the other
    sizes are multiplied into the second dimension, the contents stay. *)
Lemma view_flatten p n :
  len p = Some n -> 0 < n ->
  view p [Z.of_nat n; (-1)%Z]
  = Some (mkTensor [n; prod_list (tail (shape p))] (data p)).
Proof.
  destruct p as [[| n' rest] d]; unfold len; simpl; intros Hlen Hn; [discriminate |].
  injection Hlen as ->.
  unfold view, infer_size, numel. cbn [shape data existsb orb].
  destruct (Z.ltb_spec (Z.of_nat n) (-1)); [lia |].
  cbn [Z.ltb Z.compare Pos.compare Pos.compare_cont CompOpp orb].
  rewrite !filter_cons, !filter_nil.
  repeat case_decide; try lia; try congruence.
  cbn [length fmap list_fmap]. rewrite !prod_list_cons. cbn [prod_list foldr].
  rewrite Nat.mul_1_r, Nat2Z.id.
  destruct (Nat.ltb_spec 0 n); [| lia].
  rewrite (Nat.mul_comm n), Nat.Div0.mod_mul, Nat.div_mul by lia.
  cbn [Nat.eqb andb mbind option_bind].
  destruct (Z.eqb_spec (Z.of_nat n) (-1)); [lia | reflexivity].
Qed.

(** [view(0, -1)] is refused. *)
Lemma view_flatten_empty p : view p [0%Z; (-1)%Z] = None.
Proof. reflexivity. Qed.

(** [forward] on an input for which [self.model] answers [p]. *)
Lemma forward_of_predictions K training self x p n :
  apply_module K training [] (model self) x = Some p ->
  len p = Some n -> 0 < n ->
  forward K training self x
  = Some (mkTensor [n; prod_list (tail (shape p))] (data p)).
Proof.
  intros Hp Hlen Hn. unfold forward. rewrite Hp. cbn [mbind option_bind].
  rewrite Hlen. cbn [mbind option_bind]. apply view_flatten; assumption.
Qed.

(** What the model of a discriminator accepts, and the shape it answers. *)
Lemma discriminator_accepts K training img_chan hidden_dim x p :
  apply_module K training [] (model (Discriminator_init img_chan hidden_dim)) x = Some p ->
  exists n h w,
    shape x = [n; img_chan; h; w] /\ 22 <= h /\ 22 <= w /\
    shape p = [n; 1; out3 h; out3 w].
Proof.
  intros Hp.
  pose proof (apply_module_shape K training
                (model (Discriminator_init img_chan hidden_dim)) [] x) as Hs.
  rewrite Hp, discriminator_shape in Hs. cbn [fmap option_fmap option_map] in Hs.
  destruct (shape x) as [| n [| ch [| h [| w [| ? ?]]]]]; try discriminate.
  destruct (Nat.eqb_spec ch img_chan); [| discriminate].
  destruct (Nat.leb_spec 22 h); [| discriminate].
  destruct (Nat.leb_spec 22 w); [| discriminate].
  injection Hs as Hs. exists n, h, w. subst ch. auto.
Qed.

Lemma discriminator_accepted K training img_chan hidden_dim x n h w :
  shape x = [n; img_chan; h; w] -> 22 <= h -> 22 <= w ->
  exists p,
    apply_module K training [] (model (Discriminator_init img_chan hidden_dim)) x = Some p /\
    shape p = [n; 1; out3 h; out3 w].
Proof.
  intros Hx Hh Hw.
  pose proof (apply_module_shape K training
                (model (Discriminator_init img_chan hidden_dim)) [] x) as Hs.
  rewrite discriminator_shape, Hx in Hs.
  rewrite Nat.eqb_refl in Hs.
  destruct (Nat.leb_spec 22 h); [| lia].
  destruct (Nat.leb_spec 22 w); [| lia].
  cbn [andb] in Hs.
  destruct (apply_module K training [] (model (Discriminator_init img_chan hidden_dim)) x)
    as [p |]; [| discriminate].
  injection Hs as Hs. exists p. auto.
Qed.

(** ** Claims on the discriminator *)

(** C1 (as amended).  For every input that the model of a discriminator
    accepts with at least one sample in its answer [predictions],
    [forward] returns [predictions] under the two-dimensional shape
    [(len(predictions), product of the remaining sizes)], with the same
    elements in the same order. *)
Theorem forward_flattens_predictions K training img_chan hidden_dim x predictions :
  apply_module K training [] (model (Discriminator_init img_chan hidden_dim)) x
    = Some predictions ->
  len predictions <> Some 0 ->
  exists n,
    len predictions = Some n /\
    forward K training (Discriminator_init img_chan hidden_dim) x
    = Some (mkTensor [n; prod_list (tail (shape predictions))] (data predictions)).
Proof.
  intros Hp Hne.
  destruct (discriminator_accepts _ _ _ _ _ _ Hp) as (n & h & w & _ & _ & _ & Hs).
  assert (Hlen : len predictions = Some n) by (unfold len; rewrite Hs; reflexivity).
  exists n. split; [exact Hlen |].
  apply forward_of_predictions; [exact Hp | exact Hlen |].
  destruct n; [congruence | lia].
Qed.

Lemma forward_flattens_predictions_witness :
  exists n,
    len (mkTensor [2; 1; 1; 1] [0%Q; 0%Q]) = Some n /\
    forward zeros_backend true (Discriminator_init 1 16) (zero_images 2 22 22)
    = Some (mkTensor [n; prod_list (tail (shape (mkTensor [2; 1; 1; 1] [0%Q; 0%Q])))]
              (data (mkTensor [2; 1; 1; 1] [0%Q; 0%Q]))).
Proof.
  apply (forward_flattens_predictions zeros_backend true 1 16 (zero_images 2 22 22)).
  - vm_compute. reflexivity.
  - vm_compute. discriminate.
Defined.

(** C1, as stated, fails on an empty batch: the model accepts it and
    answers a tensor of shape (0, 1, 1, 1), whose [view(0, -1)] is
    refused, so [forward] returns nothing. *)
Lemma forward_refuses_empty_batch :
  apply_module zeros_backend true [] (model Discriminator_default) (zero_images 0 22 22)
    = Some (mkTensor [0; 1; 1; 1] [])
  /\ forward zeros_backend true Discriminator_default (zero_images 0 22 22) = None.
Proof. split; vm_compute; reflexivity. Qed.

(** C4.  A block made by [make_disc_block] is the [Sequential] of a
    convolution from [input_channels] to [output_channels] with the given
    kernel size and stride, a batch normalisation over [output_channels]
    features and a LeakyReLU of negative slope 0.2, and calling it calls
    these three layers in this order. *)
Theorem make_disc_block_structure K training path input_channels output_channels
    kernel_size stride x :
  make_disc_block input_channels output_channels kernel_size stride
  = Sequential [
      Leaf (Conv2d (mkConv2d input_channels output_channels kernel_size stride 0 1));
      Leaf (BatchNorm2d output_channels);
      Leaf (LeakyReLU 0.2 true) ]
  /\ apply_module K training path
       (make_disc_block input_channels output_channels kernel_size stride) x
     = (x1 ← apply_layer K training (path ++ [0])
               (Conv2d (mkConv2d input_channels output_channels kernel_size stride 0 1)) x;
        x2 ← apply_layer K training (path ++ [1]) (BatchNorm2d output_channels) x1;
        apply_layer K training (path ++ [2]) (LeakyReLU 0.2 true) x2).
Proof.
  split; [reflexivity |].
  rewrite apply_module_leaves. unfold make_disc_block. rewrite leaves_Sequential.
  cbn [make_disc_block children_leaves leaves app run_layers nn_Conv2d].
  destruct (apply_layer K training (path ++ [0]) _ x) as [x1 |]; [| reflexivity].
  cbn [mbind option_bind].
  destruct (apply_layer K training (path ++ [1]) _ x1) as [x2 |]; reflexivity.
Qed.

(** C5.  The model of [Discriminator(img_chan, hidden_dim)] is the
    [Sequential] of a block from [img_chan] to [hidden_dim] channels, a
    block from [hidden_dim] to [hidden_dim * 2] channels and a
    convolution from [hidden_dim * 2] channels to 1; its convolutions
    are these three, and each has kernel size 4 and stride 2. *)
Theorem discriminator_topology img_chan hidden_dim :
  model (Discriminator_init img_chan hidden_dim)
  = Sequential [
      make_disc_block img_chan hidden_dim 4 2;
      make_disc_block hidden_dim (hidden_dim * 2) 4 2;
      Leaf (Conv2d (mkConv2d (hidden_dim * 2) 1 4 2 0 1)) ]
  /\ snd <$> leaves [] (model (Discriminator_init img_chan hidden_dim))
     = [ Conv2d (mkConv2d img_chan hidden_dim 4 2 0 1);
         BatchNorm2d hidden_dim;
         LeakyReLU 0.2 true;
         Conv2d (mkConv2d hidden_dim (hidden_dim * 2) 4 2 0 1);
         BatchNorm2d (hidden_dim * 2);
         LeakyReLU 0.2 true;
         Conv2d (mkConv2d (hidden_dim * 2) 1 4 2 0 1) ]
  /\ channels <$> convs (model (Discriminator_init img_chan hidden_dim))
     = [ (img_chan, hidden_dim); (hidden_dim, hidden_dim * 2); (hidden_dim * 2, 1) ]
  /\ Forall (fun c => kernel_size c = 4 /\ stride c = 2)
       (convs (model (Discriminator_init img_chan hidden_dim))).
Proof.
  repeat split; try reflexivity.
  unfold convs. cbn. repeat constructor.
Qed.

(** C10.  [Discriminator()] is [Discriminator(1, 16)]: its three
    convolutions go from 1 to 16, from 16 to 32 and from 32 to 1
    channels. *)
Theorem discriminator_defaults :
  Discriminator_default = Discriminator_init 1 16
  /\ channels <$> convs (model Discriminator_default)
     = [ (1, 16); (16, 32); (32, 1) ].
Proof. split; reflexivity. Qed.

(** C8 (as amended).  The three convolutions of [Discriminator()] have kernel size 4,
    stride 2 and no padding, so each maps a spatial size [h] to
    [(h - 4) / 2 + 1] and needs [4 <= h]; [forward] succeeds only on
    four-dimensional inputs (N, 1, H, W) with [22 <= H] and [22 <= W]; on
    a batch of [n >= 1] images of height and width 22 the model answers
    one scalar per image, and [forward] a tensor of shape (n, 1). *)
Theorem forward_default_input_size K training :
  length (convs (model Discriminator_default)) = 3
  /\ Forall (fun c => kernel_size c = 4 /\ stride c = 2 /\ padding c = 0)
       (convs (model Discriminator_default))
  /\ (forall c h, c ∈ convs (model Discriminator_default) ->
        conv_out c h = if 4 <=? h then Some ((h - 4) / 2 + 1) else None)
  /\ (forall x y, forward K training Discriminator_default x = Some y ->
        exists n h w, shape x = [n; 1; h; w] /\ 22 <= h /\ 22 <= w)
  /\ (forall x n, 0 < n -> shape x = [n; 1; 22; 22] ->
        exists p y,
          apply_module K training [] (model Discriminator_default) x = Some p /\
          shape p = [n; 1; 1; 1] /\
          forward K training Discriminator_default x = Some y /\
          shape y = [n; 1]).
Proof.
  change Discriminator_default with (Discriminator_init 1 16).
  split; [reflexivity |].
  split; [unfold convs; cbn; repeat constructor |].
  split.
  { intros c h Hc. unfold convs in Hc. cbn in Hc.
    repeat (apply elem_of_cons in Hc as [-> | Hc]); try apply conv_out_4_2.
    apply elem_of_nil in Hc. contradiction. }
  split.
  - intros x y Hy. unfold forward in Hy.
    destruct (apply_module K training [] (model (Discriminator_init 1 16)) x)
      as [p |] eqn:Hp; [| discriminate].
    destruct (discriminator_accepts _ _ _ _ _ _ Hp) as (n & h & w & Hx & Hh & Hw & _).
    exists n, h, w. auto.
  - intros x n Hn Hx.
    destruct (discriminator_accepted K training 1 16 x n 22 22 Hx) as (p & Hp & Hs);
      [lia | lia |].
    change (out3 22) with 1 in Hs.
    exists p. eexists. split; [exact Hp |]. split; [exact Hs |].
    split.
    + apply (forward_of_predictions K training _ x p n Hp); [| exact Hn].
      unfold len. rewrite Hs. reflexivity.
    + rewrite Hs. reflexivity.
Qed.

Lemma forward_default_input_size_witness :
  exists p y,
    apply_module zeros_backend true [] (model Discriminator_default) (zero_images 3 22 22)
      = Some p /\
    shape p = [3; 1; 1; 1] /\
    forward zeros_backend true Discriminator_default (zero_images 3 22 22) = Some y /\
    shape y = [3; 1].
Proof.
  destruct (forward_default_input_size zeros_backend true) as (_ & _ & _ & _ & H).
  apply (H (zero_images 3 22 22) 3); [lia | reflexivity].
Defined.

(** C8, as stated, fails on a batch of N = 0 images of height and width
    22: the model answers shape (0, 1, 1, 1), whose [view(0, -1)] is
    refused, so in every mode and under every backend [forward] returns
    nothing, and no tensor of shape (0, 1). *)
Lemma forward_default_refuses_zero_images :
  shape (zero_images 0 22 22) = [0; 1; 22; 22]
  /\ forall K training,
       forward K training Discriminator_default (zero_images 0 22 22) = None.
Proof.
  split; [reflexivity |]. intros K training.
  change Discriminator_default with (Discriminator_init 1 16).
  destruct (discriminator_accepted K training 1 16 (zero_images 0 22 22) 0 22 22 eq_refl)
    as (p & Hp & Hs); [lia | lia |].
  unfold forward. rewrite Hp. cbn [mbind option_bind].
  unfold len. rewrite Hs. cbn [head mbind option_bind Z.of_nat].
  apply view_flatten_empty.
Qed.

(** The forward pass is the plain composition of its layers and the
    reshape. *)
Lemma forward_is_composition K training img_chan hidden_dim x :
  forward K training (Discriminator_init img_chan hidden_dim) x
  = forward_composition K training img_chan hidden_dim x.
Proof.
  unfold forward, forward_composition.
  rewrite apply_module_leaves.
  unfold Discriminator_init, make_disc_block; cbn [model].
  rewrite leaves_Sequential.
  cbn [children_leaves]. rewrite !leaves_Sequential.
  cbn [children_leaves leaves app run_layers].
  repeat match goal with
         | |- context [apply_layer K training ?path ?l ?t] =>
             destruct (apply_layer K training path l t);
             cbn [mbind option_bind]; [| reflexivity]
         end.
  reflexivity.
Qed.

(** ** The normalisation *)

Lemma apply_techno_transform x :
  apply_transform techno_transform x = normalize [(-3.76)%Q; 0%Q] [10.05%Q; 1%Q] x.
Proof.
  unfold techno_transform. cbn [apply_transform].
  destruct (normalize _ _ x); reflexivity.
Qed.

Lemma apply_Compose_nil x : apply_transform (Compose []) x = Some x.
Proof. reflexivity. Qed.

(** Subtracting 0 and dividing by 1 give back the very same rational. *)
Lemma Qminus_0_div_1 (x : Q) : ((x - 0) / 1)%Q = x.
Proof.
  destruct x as [a b]. unfold Qdiv, Qminus, Qplus, Qmult, Qinv, Qopp. cbn.
  rewrite Z.mul_1_r, Z.add_0_r, Z.mul_1_r, Pos.mul_1_r, Pos.mul_1_r. reflexivity.
Qed.

(** The flat position of (c, i, j) lies in channel [c]. *)
Lemma channel_of_position c h w i j :
  c < 2 -> i < h -> j < w -> channel_at 2 h w ((c * h + i) * w + j) = c.
Proof.
  intros Hc Hi Hj. unfold channel_at.
  replace (((c * h + i) * w + j) / (h * w)) with c.
  - apply Nat.mod_small, Hc.
  - apply (Nat.div_unique _ _ _ (i * w + j)); nia.
Qed.

(** The normalisation of the loader on a tensor (..., 2, H, W). *)
Lemma normalize_two_channels t pre h w :
  shape t = pre ++ [2; h; w] ->
  normalize [(-3.76)%Q; 0%Q] [10.05%Q; 1%Q] t
  = Some (mkTensor (shape t)
            (imap (fun p x =>
                     ((x - channel_value [(-3.76)%Q; 0%Q] (channel_at 2 h w p))
                      / channel_value [10.05%Q; 1%Q] (channel_at 2 h w p))%Q)
                  (data t))).
Proof.
  intros Hs. unfold normalize. rewrite Hs at 1. rewrite reverse_app.
  change (reverse [2; h; w]) with [w; h; 2].
  reflexivity.
Qed.

Lemma data_normalized t pre h w p :
  shape t = pre ++ [2; h; w] ->
  forall t', normalize [(-3.76)%Q; 0%Q] [10.05%Q; 1%Q] t = Some t' ->
  data t' !! p
  = (fun x => ((x - channel_value [(-3.76)%Q; 0%Q] (channel_at 2 h w p))
               / channel_value [10.05%Q; 1%Q] (channel_at 2 h w p))%Q)
    <$> data t !! p.
Proof.
  intros Hs t' Ht'. rewrite (normalize_two_channels t pre h w Hs) in Ht'.
  injection Ht' as <-. cbn [data]. apply list_lookup_imap.
Qed.

Lemma at3_normalized t h w c i j :
  shape t = [2; h; w] ->
  forall t', normalize [(-3.76)%Q; 0%Q] [10.05%Q; 1%Q] t = Some t' ->
  at3 t' c i j
  = (fun x => ((x - channel_value [(-3.76)%Q; 0%Q] c)
               / channel_value [10.05%Q; 1%Q] c)%Q) <$> at3 t c i j.
Proof.
  intros Hs t' Ht'.
  pose proof (data_normalized t [] h w ((c * h + i) * w + j) Hs t' Ht') as Hd.
  assert (Hs' : shape t' = [2; h; w]).
  { rewrite (normalize_two_channels t [] h w Hs) in Ht'. injection Ht' as <-. exact Hs. }
  unfold at3. rewrite Hs', Hs.
  destruct (Nat.ltb_spec c 2); [| reflexivity].
  destruct (Nat.ltb_spec i h); [| reflexivity].
  destruct (Nat.ltb_spec j w); [| reflexivity].
  cbn [andb]. rewrite Hd, channel_of_position by assumption. reflexivity.
Qed.

(** ** The batch sampler *)

Lemma batch_sampler_concat bs batch idxs :
  concat (batch_sampler bs false batch idxs) = batch ++ idxs.
Proof.
  revert batch. induction idxs as [| idx rest IH]; intros batch; simpl.
  - rewrite app_nil_r. destruct batch; [reflexivity |].
    simpl. rewrite app_nil_r. reflexivity.
  - destruct (length (batch ++ [idx]) =? bs); simpl; rewrite IH.
    + rewrite <- app_assoc. reflexivity.
    + rewrite <- app_assoc. reflexivity.
Qed.

Lemma batch_sampler_sizes bs batch idxs :
  length batch < bs ->
  Forall (fun b => 0 < length b <= bs) (batch_sampler bs false batch idxs).
Proof.
  revert batch. induction idxs as [| idx rest IH]; intros batch Hb; simpl.
  - destruct batch as [| i batch]; simpl; [constructor |].
    constructor; [simpl in *; lia | constructor].
  - destruct (Nat.eqb_spec (length (batch ++ [idx])) bs) as [Heq | Hne].
    + rewrite length_app in Heq. simpl in Heq.
      constructor; [rewrite length_app; simpl; lia | apply IH; simpl; lia].
    + apply IH. rewrite length_app in *. simpl in *. lia.
Qed.

Lemma batch_sampler_full bs batch idxs :
  length batch < bs ->
  forall i b,
    batch_sampler bs false batch idxs !! i = Some b ->
    S i < length (batch_sampler bs false batch idxs) ->
    length b = bs.
Proof.
  revert batch. induction idxs as [| idx rest IH]; intros batch Hb i b; simpl.
  - destruct (0 <? length batch); simpl; intros _ Hi; lia.
  - destruct (Nat.eqb_spec (length (batch ++ [idx])) bs) as [Heq | Hne].
    + destruct i as [| i]; simpl.
      * intros [= <-] _. exact Heq.
      * intros Hlook Hi. rewrite length_app in Heq. simpl in Heq.
        apply (IH [] ltac:(simpl; lia) i b Hlook). lia.
    + apply IH. rewrite length_app in *. simpl in *. lia.
Qed.

(** ** The loader returned by [techno_data_loader] *)

Lemma techno_data_loader_Some lp bs dir ld :
  techno_data_loader lp bs dir = Some ld ->
  exists tensors,
    lp dir = Some tensors /\ tensors <> [] /\ 0 < bs /\
    ld = mkDataLoader (mkTechnoDataset tensors techno_transform) bs true false.
Proof.
  unfold techno_data_loader, DataLoader_init, dataset_len.
  destruct (lp dir) as [tensors |]; [| discriminate].
  cbn [mbind option_bind dat andb].
  destruct tensors as [| t tensors]; [discriminate |].
  destruct bs as [| bs]; [discriminate |].
  cbn. intros [= <-]. exists (t :: tensors). repeat split; [discriminate | lia].
Qed.

Lemma techno_data_loader_returns lp bs dir tensors :
  lp dir = Some tensors -> tensors <> [] -> 0 < bs ->
  techno_data_loader lp bs dir
  = Some (mkDataLoader (mkTechnoDataset tensors techno_transform) bs true false).
Proof.
  intros Hload Hne Hbs. unfold techno_data_loader, DataLoader_init, dataset_len.
  rewrite Hload. cbn [mbind option_bind dat andb].
  destruct tensors as [| t tensors]; [congruence |].
  destruct bs as [| bs]; [lia |]. reflexivity.
Qed.

(** Fetching a sample of the loader's dataset normalises the cached
    tensor. *)
Lemma techno_getitem tensors idx :
  dataset_getitem (mkTechnoDataset tensors techno_transform) idx
  = x ← tensors !! idx; normalize [(-3.76)%Q; 0%Q] [10.05%Q; 1%Q] x.
Proof.
  unfold dataset_getitem. cbn [dat transform].
  destruct (tensors !! idx); [apply apply_techno_transform | reflexivity].
Qed.

(** ** Claims on the data loader *)

(** C2.  Whatever the file and the batch size, the loader returned by
    [techno_data_loader] carries the one transform
    [Normalize((-3.76, 0), (10.05, 1))]; every sample (..., 2, H, W) it
    hands out is the cached tensor with the elements of channel 0 mapped
    to [(x - (-3.76)) / 10.05] and those of channel 1 to [(x - 0) / 1],
    which for an image (2, H, W) are the elements at (0, i, j) and at
    (1, i, j). *)
Theorem techno_normalization_fixed lp batch_size data_dir ld :
  techno_data_loader lp batch_size data_dir = Some ld ->
  transform (dataset ld) = Compose [Normalize [(-3.76)%Q; 0%Q] [10.05%Q; 1%Q]]
  /\ forall idx sample pre h w,
       dat (dataset ld) !! idx = Some sample ->
       shape sample = pre ++ [2; h; w] ->
       exists sample',
         apply_transform (transform (dataset ld)) sample = Some sample' /\
         dataset_getitem (dataset ld) idx = Some sample' /\
         shape sample' = shape sample /\
         (forall p,
            (channel_at 2 h w p = 0 ->
             data sample' !! p
               = (fun x => ((x - (-3.76)) / 10.05)%Q) <$> data sample !! p) /\
            (channel_at 2 h w p = 1 ->
             data sample' !! p
               = (fun x => ((x - 0) / 1)%Q) <$> data sample !! p)) /\
         (pre = [] ->
          forall i j,
            at3 sample' 0 i j
              = (fun x => ((x - (-3.76)) / 10.05)%Q) <$> at3 sample 0 i j /\
            at3 sample' 1 i j
              = (fun x => ((x - 0) / 1)%Q) <$> at3 sample 1 i j).
Proof.
  intros Hld.
  destruct (techno_data_loader_Some _ _ _ _ Hld) as (tensors & _ & _ & _ & ->).
  cbn [dataset transform dat]. split; [reflexivity |].
  intros idx sample pre h w Hidx Hs.
  rewrite techno_getitem, Hidx. cbn [mbind option_bind].
  pose proof (normalize_two_channels sample pre h w Hs) as Hn.
  eexists. split; [rewrite apply_techno_transform; exact Hn |].
  split; [exact Hn |]. split; [reflexivity |]. split.
  - intros p.
    rewrite (data_normalized sample pre h w p Hs _ Hn).
    split; intros ->; reflexivity.
  - intros ->. intros i j. split.
    + apply (at3_normalized sample h w 0 i j Hs _ Hn).
    + apply (at3_normalized sample h w 1 i j Hs _ Hn).
Qed.

Lemma techno_normalization_fixed_witness :
  techno_data_loader pickle_jar 2 "techno.pkl" = Some jar_loader
  /\ transform (dataset jar_loader) = Compose [Normalize [(-3.76)%Q; 0%Q] [10.05%Q; 1%Q]].
Proof.
  split; [vm_compute; reflexivity |].
  apply (techno_normalization_fixed pickle_jar 2 "techno.pkl" jar_loader).
  vm_compute. reflexivity.
Defined.

(** C9.  The normalisation of the loader leaves the second channel of
    every sample (..., 2, H, W) as it is (its mean is 0 and its std is
    1); the values it changes are those of the first channel. *)
Theorem techno_normalization_keeps_second_channel lp batch_size data_dir ld
    idx sample pre h w :
  techno_data_loader lp batch_size data_dir = Some ld ->
  dat (dataset ld) !! idx = Some sample ->
  shape sample = pre ++ [2; h; w] ->
  channel_value [(-3.76)%Q; 0%Q] 1 = 0%Q /\ channel_value [10.05%Q; 1%Q] 1 = 1%Q
  /\ exists sample',
       apply_transform (transform (dataset ld)) sample = Some sample' /\
       dataset_getitem (dataset ld) idx = Some sample' /\
       shape sample' = shape sample /\
       length (data sample') = length (data sample) /\
       (forall p, channel_at 2 h w p = 1 -> data sample' !! p = data sample !! p) /\
       (forall p, channel_at 2 h w p = 0 ->
          data sample' !! p
            = (fun x => ((x - (-3.76)) / 10.05)%Q) <$> data sample !! p) /\
       (pre = [] -> forall i j, at3 sample' 1 i j = at3 sample 1 i j).
Proof.
  intros Hld Hidx Hs.
  destruct (techno_data_loader_Some _ _ _ _ Hld) as (tensors & _ & _ & _ & ->).
  cbn [dataset transform dat] in *.
  split; [reflexivity |]. split; [reflexivity |].
  rewrite techno_getitem, Hidx. cbn [mbind option_bind].
  pose proof (normalize_two_channels sample pre h w Hs) as Hn.
  eexists. split; [rewrite apply_techno_transform; exact Hn |].
  split; [exact Hn |].
  split; [reflexivity |].
  split; [cbn [data]; apply length_imap |].
  split; [| split].
  - intros p Hp. rewrite (data_normalized sample pre h w p Hs _ Hn), Hp.
    change (channel_value [(-3.76)%Q; 0%Q] 1) with 0%Q.
    change (channel_value [10.05%Q; 1%Q] 1) with 1%Q.
    destruct (data sample !! p) as [x |]; [| reflexivity].
    cbn [fmap option_fmap option_map]. rewrite Qminus_0_div_1. reflexivity.
  - intros p Hp. rewrite (data_normalized sample pre h w p Hs _ Hn), Hp. reflexivity.
  - intros ->. intros i j. rewrite (at3_normalized sample h w 1 i j Hs _ Hn).
    change (channel_value [(-3.76)%Q; 0%Q] 1) with 0%Q.
    change (channel_value [10.05%Q; 1%Q] 1) with 1%Q.
    destruct (at3 sample 1 i j) as [x |]; [| reflexivity].
    cbn [fmap option_fmap option_map]. rewrite Qminus_0_div_1. reflexivity.
Qed.

Lemma techno_normalization_keeps_second_channel_witness :
  exists sample',
    apply_transform (transform (dataset jar_loader)) sample_a = Some sample' /\
    dataset_getitem (dataset jar_loader) 0 = Some sample' /\
    shape sample' = shape sample_a /\
    length (data sample') = length (data sample_a) /\
    (forall p, channel_at 2 1 2 p = 1 -> data sample' !! p = data sample_a !! p) /\
    (forall p, channel_at 2 1 2 p = 0 ->
       data sample' !! p
         = (fun x => ((x - (-3.76)) / 10.05)%Q) <$> data sample_a !! p) /\
    (@nil nat = [] -> forall i j, at3 sample' 1 i j = at3 sample_a 1 i j).
Proof.
  apply (techno_normalization_keeps_second_channel pickle_jar 2 "techno.pkl"
           jar_loader 0 sample_a [] 1 2).
  - vm_compute. reflexivity.
  - reflexivity.
  - reflexivity.
Defined.



(** C3 (as amended).  For every positive batch size and every file from
    which [load_pickle] reads at least one tensor, [techno_data_loader]
    returns a loader over these tensors with this batch size and with
    shuffling on: an epoch visits the indices in the order drawn by the
    random sampler, cut into batches of [bs] indices each, the last one
    possibly shorter but not empty. *)
Theorem techno_loader_shuffled_batches lp bs data_dir tensors randperm :
  lp data_dir = Some tensors -> tensors <> [] -> 0 < bs ->
  exists ld,
    techno_data_loader lp bs data_dir = Some ld
    /\ dat (dataset ld) = tensors
    /\ batch_size ld = bs
    /\ shuffle ld = true
    /\ sampler_order ld randperm = randperm
    /\ concat (loader_batches ld randperm) = randperm
    /\ Forall (fun b => 0 < length b <= bs) (loader_batches ld randperm)
    /\ (forall i b,
          loader_batches ld randperm !! i = Some b ->
          S i < length (loader_batches ld randperm) ->
          length b = bs)
    /\ iterate ld randperm
       = mapM (fun b => samples ← mapM (dataset_getitem (dataset ld)) b; stack samples)
           (loader_batches ld randperm).
Proof.
  intros Hload Hne Hbs.
  eexists. split; [apply (techno_data_loader_returns lp bs data_dir tensors); assumption |].
  unfold loader_batches, sampler_order. cbn [dataset dat batch_size shuffle drop_last].
  repeat split.
  - apply batch_sampler_concat.
  - apply batch_sampler_sizes. simpl. lia.
  - apply batch_sampler_full. simpl. lia.
Qed.

Lemma techno_loader_shuffled_batches_witness :
  exists ld,
    techno_data_loader pickle_jar 2 "techno.pkl" = Some ld
    /\ dat (dataset ld) = [sample_a; sample_b; sample_c]
    /\ batch_size ld = 2
    /\ shuffle ld = true
    /\ sampler_order ld [2; 0; 1] = [2; 0; 1]
    /\ concat (loader_batches ld [2; 0; 1]) = [2; 0; 1]
    /\ Forall (fun b => 0 < length b <= 2) (loader_batches ld [2; 0; 1])
    /\ (forall i b,
          loader_batches ld [2; 0; 1] !! i = Some b ->
          S i < length (loader_batches ld [2; 0; 1]) ->
          length b = 2)
    /\ iterate ld [2; 0; 1]
       = mapM (fun b => samples ← mapM (dataset_getitem (dataset ld)) b; stack samples)
           (loader_batches ld [2; 0; 1]).
Proof.
  apply (techno_loader_shuffled_batches pickle_jar 2 "techno.pkl"
           [sample_a; sample_b; sample_c] [2; 0; 1]).
  - reflexivity.
  - discriminate.
  - lia.
Defined.

(** C3, as stated, fails at batch size 0: the file is read, and the
    loader is refused. *)
Lemma techno_loader_refuses_batch_size_0 :
  pickle_jar "techno.pkl" = Some [sample_a; sample_b; sample_c]
  /\ techno_data_loader pickle_jar 0 "techno.pkl" = None.
Proof. split; reflexivity. Qed.

(** ** The loader as a composition *)

Lemma getitem_normalized tensors normalized idx :
  mapM (normalize [(-3.76)%Q; 0%Q] [10.05%Q; 1%Q]) tensors = Some normalized ->
  dataset_getitem (mkTechnoDataset tensors techno_transform) idx
  = dataset_getitem (mkTechnoDataset normalized (Compose [])) idx.
Proof.
  intros Hm. apply mapM_Some_1 in Hm.
  rewrite techno_getitem. unfold dataset_getitem. cbn [dat transform].
  destruct (tensors !! idx) as [x |] eqn:Hx.
  - destruct (Forall2_lookup_l _ _ _ _ _ Hm Hx) as (y & Hy & Hn).
    rewrite Hy. cbn [mbind option_bind]. rewrite Hn. reflexivity.
  - apply lookup_ge_None in Hx. rewrite (Forall2_length _ _ _ Hm) in Hx.
    apply lookup_ge_None in Hx. rewrite Hx. reflexivity.
Qed.

(** Normalising when a sample is fetched, or all samples beforehand,
    gives the same epoch, as soon as the epoch visits every index. *)
Lemma iterate_normalized tensors bs randperm :
  (forall i, i < length tensors -> i ∈ randperm) ->
  iterate (mkDataLoader (mkTechnoDataset tensors techno_transform) bs true false) randperm
  = normalized ← mapM (normalize [(-3.76)%Q; 0%Q] [10.05%Q; 1%Q]) tensors;
    iterate (mkDataLoader (mkTechnoDataset normalized (Compose [])) bs true false) randperm.
Proof.
  intros Hcover. unfold iterate, loader_batches, sampler_order, fetch.
  cbn [dataset batch_size shuffle drop_last].
  destruct (mapM _ tensors) as [normalized |] eqn:Hm; cbn [mbind option_bind].
  - apply mapM_ext. intros b.
    rewrite (mapM_ext _ _ b (fun idx => getitem_normalized tensors normalized idx Hm)).
    reflexivity.
  - apply mapM_None_1, Exists_exists in Hm. destruct Hm as (x & Hx & Hn).
    apply list_elem_of_lookup in Hx. destruct Hx as (i & Hi).
    assert (Hin : i ∈ concat (batch_sampler bs false [] randperm)).
    { rewrite batch_sampler_concat. apply Hcover. eapply lookup_lt_Some, Hi. }
    apply list_elem_of_In, in_concat in Hin. destruct Hin as (b & Hb & Hib).
    apply mapM_None_2, Exists_exists. exists b. split; [apply list_elem_of_In, Hb |].
    assert (Hnone : mapM (dataset_getitem (mkTechnoDataset tensors techno_transform)) b = None).
    { apply mapM_None_2, Exists_exists. exists i. split; [apply list_elem_of_In, Hib |].
      rewrite techno_getitem, Hi. exact Hn. }
    rewrite Hnone. reflexivity.
Qed.

(** C7.  Neither file computes on tensors by itself: an epoch over the
    loader of [techno_data_loader] is the composition of the library's
    pickle-load, per-sample normalisation, dataset wrap and shuffled
    batching, and [Discriminator.forward] is the composition of the
    library's convolution, batch normalisation and LeakyReLU layers
    followed by the reshape. *)
Theorem library_compositions K training img_chan hidden_dim x lp bs data_dir randperm :
  (forall tensors, lp data_dir = Some tensors -> randperm ≡ₚ seq 0 (length tensors)) ->
  techno_epoch lp bs data_dir randperm = loader_composition lp bs data_dir randperm
  /\ forward K training (Discriminator_init img_chan hidden_dim) x
     = forward_composition K training img_chan hidden_dim x.
Proof.
  intros Hperm. split; [| apply forward_is_composition].
  unfold techno_epoch, loader_composition, techno_data_loader.
  destruct (lp data_dir) as [tensors |] eqn:Hload; [| reflexivity].
  cbn [mbind option_bind]. specialize (Hperm tensors eq_refl).
  unfold DataLoader_init, dataset_len. cbn [dat andb].
  destruct tensors as [| t tensors]; [reflexivity |].
  cbn [length Nat.eqb].
  destruct bs as [| bs].
  - cbn [Nat.eqb mbind option_bind].
    destruct (mapM _ (t :: tensors)) as [normalized |] eqn:Hm; [| reflexivity].
    cbn [mbind option_bind]. destruct (length normalized =? 0); reflexivity.
  - cbn [Nat.eqb mbind option_bind].
    rewrite iterate_normalized.
    + destruct (mapM _ (t :: tensors)) as [normalized |] eqn:Hm; [| reflexivity].
      cbn [mbind option_bind]. apply length_mapM in Hm.
      destruct normalized; [discriminate | reflexivity].
    + intros i Hi. rewrite Hperm. apply elem_of_seq. lia.
Qed.

Lemma library_compositions_witness :
  techno_epoch pickle_jar 2 "techno.pkl" [2; 0; 1]
    = loader_composition pickle_jar 2 "techno.pkl" [2; 0; 1]
  /\ forward zeros_backend true (Discriminator_init 1 16) (zero_images 2 22 22)
     = forward_composition zeros_backend true 1 16 (zero_images 2 22 22).
Proof.
  apply (library_compositions zeros_backend true 1 16 (zero_images 2 22 22)
           pickle_jar 2 "techno.pkl" [2; 0; 1]).
  intros tensors Hload. injection Hload as <-.
  apply (bool_decide_unpack _). vm_compute. exact I.
Defined.

(** * Further properties *)

(** ** The forward pass, for every input *)

(** Three stacked convolutions of kernel 4 and stride 2 behave as one of
    kernel 22 and stride 8. *)
Lemma out3_closed h : 22 <= h -> out3 h = (h - 22) / 8 + 1.
Proof.
  intros Hh. unfold out3, out1.
  pose proof (Nat.div_mod_eq (h - 4) 2) as E1.
  pose proof (Nat.mod_upper_bound (h - 4) 2) as B1.
  pose proof (Nat.div_mod_eq ((h - 4) / 2 + 1 - 4) 2) as E2.
  pose proof (Nat.mod_upper_bound ((h - 4) / 2 + 1 - 4) 2) as B2.
  pose proof (Nat.div_mod_eq (((h - 4) / 2 + 1 - 4) / 2 + 1 - 4) 2) as E3.
  pose proof (Nat.mod_upper_bound (((h - 4) / 2 + 1 - 4) / 2 + 1 - 4) 2) as B3.
  pose proof (Nat.div_mod_eq (h - 22) 8) as E.
  pose proof (Nat.mod_upper_bound (h - 22) 8) as B.
  lia.
Qed.

(** What a successful [forward] went through, whatever the model. *)
Lemma forward_Some_inv K training self x y :
  forward K training self x = Some y ->
  exists p n,
    apply_module K training [] (model self) x = Some p /\
    len p = Some n /\ 0 < n /\
    y = mkTensor [n; prod_list (tail (shape p))] (data p).
Proof.
  unfold forward. intros Hy.
  destruct (apply_module K training [] (model self) x) as [p |] eqn:Hp;
    [| discriminate].
  cbn [mbind option_bind] in Hy.
  destruct (len p) as [n |] eqn:Hlen; [| discriminate].
  cbn [mbind option_bind] in Hy.
  destruct n as [| n].
  - rewrite view_flatten_empty in Hy. discriminate.
  - rewrite (view_flatten p (S n) Hlen) in Hy by lia.
    injection Hy as <-. exists p, (S n). repeat split; [exact Hlen | lia].
Qed.

Lemma forward_init_Some_inv K training img_chan hidden_dim x y :
  forward K training (Discriminator_init img_chan hidden_dim) x = Some y ->
  exists n h w,
    shape x = [n; img_chan; h; w] /\ 0 < n /\ 22 <= h /\ 22 <= w /\
    shape y = [n; out3 h * out3 w].
Proof.
  intros Hy.
  destruct (forward_Some_inv _ _ _ _ _ Hy) as (p & n & Hp & Hlen & Hn & ->).
  destruct (discriminator_accepts _ _ _ _ _ _ Hp) as (n' & h & w & Hx & Hh & Hw & Hs).
  unfold len in Hlen. rewrite Hs in Hlen. injection Hlen as ->.
  exists n, h, w. repeat split; try assumption.
  cbn [shape]. rewrite Hs. cbn [tail prod_list foldr]. f_equal. f_equal. lia.
Qed.



(** X2.  On a batch (N, C, H, W), [forward] of a discriminator returns
    a tensor of shape (N, ((H - 22) / 8 + 1) * ((W - 22) / 8 + 1)): one
    row per image, one column per position of a 22 by 22 window moved in
    steps of 8. *)
Theorem forward_output_shape K training img_chan hidden_dim x y n c h w :
  forward K training (Discriminator_init img_chan hidden_dim) x = Some y ->
  shape x = [n; c; h; w] ->
  shape y = [n; ((h - 22) / 8 + 1) * ((w - 22) / 8 + 1)].
Proof.
  intros Hy Hx.
  destruct (forward_init_Some_inv _ _ _ _ _ _ Hy)
    as (n' & h' & w' & Hx' & _ & Hh & Hw & Hs).
  rewrite Hx in Hx'. injection Hx' as -> -> -> ->.
  rewrite Hs, !out3_closed by assumption. reflexivity.
Qed.

Lemma forward_output_shape_witness :
  forward zeros_backend true (Discriminator_init 1 16) (zero_images 2 30 38)
    = Some (mkTensor [2; 6] (repeat 0%Q 12))
  /\ shape (mkTensor [2; 6] (repeat 0%Q 12))
     = [2; ((30 - 22) / 8 + 1) * ((38 - 22) / 8 + 1)].
Proof.
  split; [vm_compute; reflexivity |].
  apply (forward_output_shape zeros_backend true 1 16 (zero_images 2 30 38)
           (mkTensor [2; 6] (repeat 0%Q 12)) 2 1 30 38).
  - vm_compute. reflexivity.
  - reflexivity.
Defined.

(** X3.  Whatever the model of a discriminator is, a tensor returned by
    [forward] has exactly two dimensions (not one, as the docstring of
    [forward] has it), the elements of the model's output in the same
    order, and as many elements as its shape announces when the model's
    output did. *)
Theorem forward_result_two_dimensional K training self x y :
  forward K training self x = Some y ->
  exists predictions,
    apply_module K training [] (model self) x = Some predictions /\
    dim y = 2 /\
    len y = len predictions /\
    data y = data predictions /\
    numel y = numel predictions.
Proof.
  intros Hy.
  destruct (forward_Some_inv _ _ _ _ _ Hy) as (p & n & Hp & Hlen & Hn & ->).
  exists p. split; [exact Hp |]. split; [reflexivity |].
  split; [symmetry; exact Hlen |]. split; [reflexivity |].
  unfold numel, len in *. cbn [shape].
  destruct (shape p) as [| n' rest]; [discriminate |].
  injection Hlen as ->. cbn [tail prod_list foldr]. lia.
Qed.

Lemma forward_result_two_dimensional_witness :
  exists predictions,
    apply_module zeros_backend false [] (model (Discriminator_init 1 16))
      (zero_images 2 30 38) = Some predictions /\
    dim (mkTensor [2; 6] (repeat 0%Q 12)) = 2 /\
    len (mkTensor [2; 6] (repeat 0%Q 12)) = len predictions /\
    data (mkTensor [2; 6] (repeat 0%Q 12)) = data predictions /\
    numel (mkTensor [2; 6] (repeat 0%Q 12)) = numel predictions.
Proof.
  apply (forward_result_two_dimensional zeros_backend false
           (Discriminator_init 1 16) (zero_images 2 30 38)).
  vm_compute. reflexivity.
Defined.


(** ** One block, for every kernel size and stride *)



(** X6.  The elements that [forward] returns are those the last
    convolution computes from the output of the two blocks: nothing is
    applied after it (no activation, no normalisation), and the reshape
    does not touch them. *)
Theorem forward_returns_last_convolution K training img_chan hidden_dim x y :
  forward K training (Discriminator_init img_chan hidden_dim) x = Some y ->
  exists x6,
    apply_module K training []
      (Sequential [make_disc_block img_chan hidden_dim 4 2;
                   make_disc_block hidden_dim (hidden_dim * 2) 4 2]) x = Some x6 /\
    data y = conv2d_data K [2] (mkConv2d (hidden_dim * 2) 1 4 2 0 1) x6.
Proof.
  intros Hy.
  destruct (forward_Some_inv _ _ _ _ _ Hy) as (p & n & Hp & _ & _ & ->).
  cbn [data]. unfold Discriminator_init in Hp. cbn [model] in Hp.
  rewrite apply_module_Sequential in Hp. rewrite apply_module_Sequential.
  cbn [run_children app] in *.
  destruct (apply_module K training [0] (make_disc_block img_chan hidden_dim 4 2) x)
    as [x3 |]; [| discriminate].
  destruct (apply_module K training [1]
              (make_disc_block hidden_dim (hidden_dim * 2) 4 2) x3)
    as [x6 |]; [| discriminate].
  exists x6. split; [reflexivity |].
  cbn [apply_module apply_layer nn_Conv2d] in Hp.
  destruct (conv2d_shape _ (shape x6)); [| discriminate].
  cbn [mbind option_bind] in Hp. injection Hp as <-. reflexivity.
Qed.

Lemma forward_returns_last_convolution_witness :
  exists x6,
    apply_module zeros_backend true []
      (Sequential [make_disc_block 1 16 4 2; make_disc_block 16 (16 * 2) 4 2])
      (zero_images 2 22 22) = Some x6 /\
    data (mkTensor [2; 1] [0%Q; 0%Q])
    = conv2d_data zeros_backend [2] (mkConv2d (16 * 2) 1 4 2 0 1) x6.
Proof.
  apply (forward_returns_last_convolution zeros_backend true 1 16 (zero_images 2 22 22)).
  vm_compute. reflexivity.
Defined.

(** ** The loader: errors, batches and shapes *)


Lemma batch_sampler_length bs batch idxs :
  length batch < bs ->
  length (batch_sampler bs false batch idxs)
  = (length batch + length idxs + bs - 1) / bs.
Proof.
  revert batch. induction idxs as [| idx rest IH]; intros batch Hb; simpl.
  - destruct batch as [| i batch]; simpl.
    + symmetry. apply Nat.div_small. lia.
    + apply (Nat.div_unique _ _ _ (length batch)); simpl in Hb; lia.
  - rewrite length_app. simpl.
    destruct (Nat.eqb_spec (length batch + 1) bs) as [Heq | Hne]; simpl.
    + rewrite IH by (simpl; lia). simpl.
      replace (length batch + S (length rest) + bs - 1)
        with (1 * bs + (length rest + bs - 1)) by lia.
      rewrite Nat.div_add_l by lia. reflexivity.
    + rewrite IH by (rewrite length_app; simpl; lia).
      rewrite length_app. simpl. f_equal. lia.
Qed.

(** X8.  An epoch over the returned loader over indices [randperm] has
    [ceil(length randperm / batch_size)] batches: no index is dropped. *)
Theorem techno_loader_batch_count lp bs data_dir ld randperm :
  techno_data_loader lp bs data_dir = Some ld ->
  length (loader_batches ld randperm) = (length randperm + bs - 1) / bs
  /\ length (concat (loader_batches ld randperm)) = length randperm.
Proof.
  intros Hld.
  destruct (techno_data_loader_Some _ _ _ _ Hld) as (tensors & _ & _ & Hbs & ->).
  unfold loader_batches, sampler_order. cbn [batch_size drop_last shuffle dataset].
  split.
  - rewrite batch_sampler_length by (simpl; lia). reflexivity.
  - rewrite batch_sampler_concat. reflexivity.
Qed.

Lemma techno_loader_batch_count_witness :
  length (loader_batches jar_loader [2; 0; 1]) = (length [2; 0; 1] + 2 - 1) / 2
  /\ length (concat (loader_batches jar_loader [2; 0; 1])) = length [2; 0; 1].
Proof.
  apply (techno_loader_batch_count pickle_jar 2 "techno.pkl" jar_loader [2; 0; 1]).
  vm_compute. reflexivity.
Defined.

(** The normalisation of the loader applies to the tensors
    (..., 2, H, W) only, and keeps their shape. *)
Lemma normalize_Some_inv t t' :
  normalize [(-3.76)%Q; 0%Q] [10.05%Q; 1%Q] t = Some t' ->
  (exists pre h w, shape t = pre ++ [2; h; w]) /\ shape t' = shape t.
Proof.
  unfold normalize. intros Ht.
  destruct (reverse (shape t)) as [| w [| h [| c rest]]] eqn:Hrev; try discriminate.
  change (existsb (Qeq_bool 0) [10.05%Q; 1%Q]) with false in Ht.
  cbn [length] in Ht. unfold broadcastable in Ht.
  destruct (Nat.eqb_spec 2 c) as [<- | Hc]; [| discriminate].
  cbn [orb andb] in Ht. injection Ht as <-.
  split; [| reflexivity].
  exists (reverse rest), h, w.
  rewrite <- (reverse_involutive (shape t)), Hrev.
  rewrite !reverse_cons, <- !app_assoc. reflexivity.
Qed.

(** X9.  The transform of the loader applies to a tensor exactly when it
    has at least three dimensions and two channels, (..., 2, H, W):
    fetching a sample of any other shape raises. *)
Theorem techno_transform_applies_iff t :
  is_Some (apply_transform techno_transform t)
  <-> exists pre h w, shape t = pre ++ [2; h; w].
Proof.
  rewrite apply_techno_transform. split.
  - intros [t' Ht']. apply (normalize_Some_inv t t' Ht').
  - intros (pre & h & w & Hs). rewrite (normalize_two_channels t pre h w Hs). eauto.
Qed.

(** A collated batch has the shape of its first sample, with the number
    of samples in front. *)
Lemma stack_Some_inv samples b :
  stack samples = Some b ->
  exists s rest,
    samples = s :: rest /\ Forall (fun u => shape u = shape s) samples /\
    shape b = length samples :: shape s.
Proof.
  unfold stack. destruct samples as [| s rest]; [discriminate |].
  destruct (forallb _ (s :: rest)) eqn:Hall; [| discriminate].
  intros [= <-]. exists s, rest. split; [reflexivity |]. split; [| reflexivity].
  apply Forall_forall. intros u Hu.
  rewrite forallb_forall in Hall.
  apply (bool_decide_eq_true_1 (shape u = shape s)), Hall, list_elem_of_In, Hu.
Qed.

Lemma stack_same_shape s rest :
  Forall (fun u => shape u = shape s) (s :: rest) ->
  exists b, stack (s :: rest) = Some b /\ shape b = length (s :: rest) :: shape s.
Proof.
  intros Hall. unfold stack.
  assert (Hb : forallb (fun u => bool_decide (shape u = shape s)) (s :: rest) = true).
  { apply forallb_forall. intros u Hu. apply bool_decide_eq_true_2.
    rewrite Forall_forall in Hall. apply Hall, list_elem_of_In, Hu. }
  rewrite Hb. eexists. split; reflexivity.
Qed.

(** A batch fetched from the loader's dataset: its indices are not
    empty, its samples come from tensors (..., 2, H, W), and it has the
    shape of the first of them behind the number of samples. *)
Lemma fetch_Some_inv tensors bs sh dl idxs b :
  fetch (mkDataLoader (mkTechnoDataset tensors techno_transform) bs sh dl) idxs = Some b ->
  exists i0 t0 pre h w,
    head idxs = Some i0 /\ tensors !! i0 = Some t0 /\
    shape t0 = pre ++ [2; h; w] /\
    shape b = length idxs :: shape t0.
Proof.
  unfold fetch. cbn [dataset]. intros Hb.
  destruct (mapM _ idxs) as [samples |] eqn:Hm; [| discriminate].
  cbn [mbind option_bind] in Hb.
  destruct (stack_Some_inv _ _ Hb) as (s & rest & -> & _ & Hs).
  pose proof (length_mapM _ _ _ Hm) as Hlen.
  apply mapM_Some_1 in Hm.
  destruct idxs as [| i0 idxs']; [inversion Hm |].
  apply Forall2_cons_1 in Hm. destruct Hm as [Hget _].
  rewrite techno_getitem in Hget.
  destruct (tensors !! i0) as [t0 |] eqn:Ht0; [| discriminate].
  cbn [mbind option_bind] in Hget.
  destruct (normalize_Some_inv t0 s Hget) as ((pre & h & w & Hshape) & Hkeep).
  exists i0, t0, pre, h, w. repeat split; try assumption.
  rewrite Hs, Hkeep, Hlen. reflexivity.
Qed.

Lemma getitem_same_shape tensors pre h w idx :
  Forall (fun t => shape t = pre ++ [2; h; w]) tensors ->
  idx < length tensors ->
  exists s,
    dataset_getitem (mkTechnoDataset tensors techno_transform) idx = Some s /\
    shape s = pre ++ [2; h; w].
Proof.
  intros Hall Hidx. rewrite techno_getitem.
  destruct (lookup_lt_is_Some_2 tensors idx Hidx) as [t Ht]. rewrite Ht.
  cbn [mbind option_bind].
  rewrite Forall_lookup in Hall. specialize (Hall idx t Ht).
  rewrite (normalize_two_channels t pre h w Hall). eexists. split; [reflexivity |].
  exact Hall.
Qed.

Lemma mapM_getitem_same_shape tensors pre h w idxs :
  Forall (fun t => shape t = pre ++ [2; h; w]) tensors ->
  Forall (fun idx => idx < length tensors) idxs ->
  exists samples,
    mapM (dataset_getitem (mkTechnoDataset tensors techno_transform)) idxs = Some samples /\
    length samples = length idxs /\
    Forall (fun s => shape s = pre ++ [2; h; w]) samples.
Proof.
  intros Hall Hidxs. induction Hidxs as [| idx idxs Hidx _ IH].
  - exists []. repeat split. constructor.
  - destruct IH as (samples & Hm & Hlen & Hshapes).
    destruct (getitem_same_shape tensors pre h w idx Hall Hidx) as (s & Hs & Hshape).
    exists (s :: samples). split; [| split].
    + cbn [mapM]. rewrite Hs. cbn [mbind option_bind]. rewrite Hm. reflexivity.
    + simpl. rewrite Hlen. reflexivity.
    + constructor; assumption.
Qed.

(** Fetching a non-empty batch of valid indices from equally shaped
    tensors (..., 2, H, W) succeeds. *)
Lemma fetch_same_shape tensors bs sh dl pre h w idxs :
  Forall (fun t => shape t = pre ++ [2; h; w]) tensors ->
  Forall (fun idx => idx < length tensors) idxs ->
  idxs <> [] ->
  exists b,
    fetch (mkDataLoader (mkTechnoDataset tensors techno_transform) bs sh dl) idxs = Some b /\
    shape b = length idxs :: pre ++ [2; h; w].
Proof.
  intros Hall Hidxs Hne. unfold fetch. cbn [dataset].
  destruct (mapM_getitem_same_shape tensors pre h w idxs Hall Hidxs)
    as (samples & Hm & Hlen & Hshapes).
  rewrite Hm. cbn [mbind option_bind].
  destruct samples as [| s rest].
  { destruct idxs; [congruence | discriminate]. }
  destruct (stack_same_shape s rest) as (b & Hb & Hs).
  { pose proof (Forall_inv Hshapes) as Hs0.
    eapply Forall_impl; [exact Hshapes |].
    intros u Hu. simpl in *. congruence. }
  exists b. split; [exact Hb |].
  rewrite Hs, Hlen. f_equal. apply (Forall_inv Hshapes).
Qed.

(** X10.  When the cached tensors all have one shape (..., 2, H, W) and
    the sampler draws valid indices, an epoch over the returned loader
    raises nowhere: it yields one batch per batch of indices, of shape
    (k, ..., 2, H, W) for the [k] indices of that batch. *)
Theorem techno_epoch_batch_shapes lp bs data_dir ld pre h w randperm :
  techno_data_loader lp bs data_dir = Some ld ->
  Forall (fun t => shape t = pre ++ [2; h; w]) (dat (dataset ld)) ->
  Forall (fun idx => idx < dataset_len (dataset ld)) randperm ->
  exists batches,
    iterate ld randperm = Some batches /\
    Forall2 (fun idxs b => shape b = length idxs :: pre ++ [2; h; w])
      (loader_batches ld randperm) batches.
Proof.
  intros Hld Hall Hidxs.
  destruct (techno_data_loader_Some _ _ _ _ Hld) as (tensors & _ & _ & Hbs & ->).
  cbn [dataset dat] in *. unfold dataset_len in Hidxs. cbn [dat] in Hidxs.
  unfold iterate, loader_batches, sampler_order.
  cbn [batch_size drop_last shuffle dataset].
  assert (Hchunks : Forall (fun idxs =>
            Forall (fun idx => idx < length tensors) idxs /\ idxs <> [])
            (batch_sampler bs false [] randperm)).
  { apply Forall_forall. intros idxs Hin. split.
    - apply Forall_forall. intros idx Hidx.
      rewrite Forall_forall in Hidxs. apply Hidxs.
      pose proof (batch_sampler_concat bs [] randperm) as Hc. simpl in Hc.
      rewrite <- Hc.
      apply list_elem_of_In, in_concat. exists idxs.
      split; apply list_elem_of_In; assumption.
    - pose proof (batch_sampler_sizes bs [] randperm ltac:(simpl; lia)) as Hsz.
      rewrite Forall_forall in Hsz. specialize (Hsz idxs Hin).
      intros ->. simpl in Hsz. lia. }
  induction Hchunks as [| idxs chunks [Hin Hne] _ IH].
  - exists []. split; [reflexivity | constructor].
  - destruct IH as (batches & Hm & Hshapes).
    destruct (fetch_same_shape tensors bs true false pre h w idxs Hall Hin Hne)
      as (b & Hb & Hs).
    exists (b :: batches). split.
    + cbn [mapM]. rewrite Hb. cbn [mbind option_bind]. rewrite Hm. reflexivity.
    + constructor; assumption.
Qed.

Lemma techno_epoch_batch_shapes_witness :
  exists batches,
    iterate jar_loader [2; 0; 1] = Some batches /\
    Forall2 (fun idxs b => shape b = length idxs :: [] ++ [2; 1; 2])
      (loader_batches jar_loader [2; 0; 1]) batches.
Proof.
  apply (techno_epoch_batch_shapes pickle_jar 2 "techno.pkl" jar_loader [] 1 2 [2; 0; 1]).
  - vm_compute. reflexivity.
  - repeat constructor.
  - repeat constructor.
Defined.

(** X11.  Every batch fetched from the returned loader has two channels
    or more than four dimensions, so a discriminator built for another
    number of channels than 2, [Discriminator()] with its default
    [img_chan=1] among them, raises on each of them. *)
Theorem one_channel_discriminator_refuses_loader_batches K training lp bs data_dir ld
    idxs b img_chan hidden_dim :
  techno_data_loader lp bs data_dir = Some ld ->
  fetch ld idxs = Some b ->
  img_chan <> 2 ->
  forward K training (Discriminator_init img_chan hidden_dim) b = None
  /\ forward K training Discriminator_default b = None.
Proof.
  intros Hld Hb Hch.
  destruct (techno_data_loader_Some _ _ _ _ Hld) as (tensors & _ & _ & _ & ->).
  destruct (fetch_Some_inv _ _ _ _ _ _ Hb) as (i0 & t0 & pre & h & w & _ & _ & Ht0 & Hs).
  assert (Hno : forall c hd, c <> 2 -> forward K training (Discriminator_init c hd) b = None).
  { intros c hd Hc.
    destruct (forward K training (Discriminator_init c hd) b) as [y |] eqn:Hy;
      [| reflexivity].
    destruct (forward_init_Some_inv _ _ _ _ _ _ Hy) as (n' & h' & w' & Hx & _).
    rewrite Hs, Ht0 in Hx. injection Hx as _ Hx.
    pose proof (f_equal length Hx) as Hlen. rewrite length_app in Hlen.
    destruct pre as [| a pre]; simpl in Hlen; [| lia].
    simpl in Hx. injection Hx as Hx _ _. congruence. }
  split; [apply Hno; exact Hch |].
  apply (Hno 1 16). discriminate.
Qed.

Lemma one_channel_discriminator_refuses_loader_batches_witness :
  forward zeros_backend true (Discriminator_init 1 16)
    (default (mkTensor [] []) (fetch jar_loader [2; 0])) = None
  /\ forward zeros_backend true Discriminator_default
       (default (mkTensor [] []) (fetch jar_loader [2; 0])) = None.
Proof.
  apply (one_channel_discriminator_refuses_loader_batches zeros_backend true
           pickle_jar 2 "techno.pkl" jar_loader [2; 0]).
  - vm_compute. reflexivity.
  - vm_compute. reflexivity.
  - discriminate.
Defined.



(** ** The equivalences at concrete inputs *)




Lemma techno_transform_applies_iff_witness :
  is_Some (apply_transform techno_transform sample_a).
Proof.
  apply (techno_transform_applies_iff sample_a).
  exists [], 1, 2. reflexivity.
Defined.
